(** * IP portfolio valuation: the valuation core of [IP_portfolio_valuation.py]

    A shallow embedding of the three asset classes ([LicensedIP],
    [InternalIP], [SubscriptionIP]), of their [net_present_value] methods,
    of the portfolio total and of the data the two chart functions hand to
    the plotting library, followed by the properties of the valuation.

    The valuation is embedded twice.

    The exact layer reads Python's [float] as an exact rational ([Q]) and
    keeps of the float operations their control flow only.  It carries the
    properties that do not depend on rounding: what the constructors store,
    how methods are resolved, which calls are made in which order, and
    values at inputs where they are compared up to a stated tolerance.

    The binary64 layer ([B64], [F64]) follows IEEE 754 binary64 and CPython:
    [+], [*] and [/] round to nearest even, [float ** int] goes through the
    special cases of CPython around the C library's [pow] and raises
    [OverflowError] when the power overflows, [/] raises
    [ZeroDivisionError] on a zero divisor (also one that a power underflowed
    to), and [np.sum] adds in NumPy's pairwise order.  It carries the
    properties of the computed numbers themselves. *)

From Stdlib Require Import ZArith QArith Qpower Qabs List String Bool Lia Lqa.
From Stdlib Require Import Setoid Morphisms SpecFloat.
Import ListNotations.

Open Scope Q_scope.

(** ** Exceptions *)

Module Py.

Inductive exn : Type := ZeroDivisionError | OverflowError.

Inductive result (A : Type) : Type :=
| Ok (v : A)
| Raise (e : exn).

Arguments Ok {A} v.
Arguments Raise {A} e.

Definition bind {A B : Type} (m : result A) (k : A -> result B) : result B :=
  match m with
  | Ok v => k v
  | Raise e => Raise e
  end.

(** A list comprehension (or a generator that is consumed to its end)
    whose element expression may raise: elements are evaluated from left
    to right and the first exception aborts the whole expression. *)
Fixpoint comprehension {A B : Type} (f : A -> result B) (l : list A)
  : result (list B) :=
  match l with
  | [] => Ok []
  | x :: t =>
      bind (f x) (fun y =>
      bind (comprehension f t) (fun ys => Ok (y :: ys)))
  end.

(** [enumerate(l, start)] *)
Fixpoint enumerate {A : Type} (l : list A) (start : Z) : list (Z * A) :=
  match l with
  | [] => []
  | x :: t => (start, x) :: enumerate t (start + 1)
  end.

(** [x ** n] for a float [x] and an int [n], in exact arithmetic. *)
Definition float_pow (x : Q) (n : Z) : result Q :=
  if Qeq_bool x 0 && (n <? 0)%Z then Raise ZeroDivisionError
  else Ok (x ^ n).

(** [a / b] on floats, in exact arithmetic. *)
Definition float_div (a b : Q) : result Q :=
  if Qeq_bool b 0 then Raise ZeroDivisionError else Ok (a / b).

(** [np.sum] of a list of numbers, in exact arithmetic: [0.0] for the empty
    list. *)
Definition np_sum (l : list Q) : Q := fold_left Qplus l 0.


End Py.

Import Py.

Notation "x <- m ;; k" := (bind m (fun x => k))
  (at level 61, m at next level, right associativity).

(** ** The asset classes (exact layer) *)

(** The attributes set by [IPAsset.__init__]. *)
Record IPAsset : Type := {
  name : string;
  cash_flows : list Q;
  discount_rate : Q
}.

(** An instance of one of the three concrete classes.  [InternalIP] adds
    two attributes to those of the base class. *)
Inductive Asset : Type :=
| LicensedIP_obj (base : IPAsset)
| InternalIP_obj (base : IPAsset) (sale_value : Q) (years_until_sale : Z)
| SubscriptionIP_obj (base : IPAsset).

Definition base_of (a : Asset) : IPAsset :=
  match a with
  | LicensedIP_obj b => b
  | InternalIP_obj b _ _ => b
  | SubscriptionIP_obj b => b
  end.

(** [IPAsset.__init__(self, name, cash_flows, discount_rate)] *)
Definition IPAsset_init (n : string) (cfs : list Q) (r : Q) : IPAsset :=
  {| name := n; cash_flows := cfs; discount_rate := r |}.

(** [LicensedIP(name, cash_flows, discount_rate)]: the class body is [pass],
    so the constructor is the inherited one. *)
Definition LicensedIP (n : string) (cfs : list Q) (r : Q) : Asset :=
  LicensedIP_obj (IPAsset_init n cfs r).

(** [InternalIP(name, sale_value, years_until_sale, discount_rate)] *)
Definition InternalIP (n : string) (sv : Q) (years : Z) (r : Q) : Asset :=
  InternalIP_obj (IPAsset_init n [] r) sv years.

(** [SubscriptionIP(name, total_app_cash_flows, ip_allocation_percent,
    discount_rate)] *)
Definition SubscriptionIP (n : string) (total_app_cash_flows : list Q)
    (ip_allocation_percent : Q) (r : Q) : Asset :=
  let allocated_flows :=
    map (fun cf => cf * ip_allocation_percent) total_app_cash_flows in
  SubscriptionIP_obj (IPAsset_init n allocated_flows r).

(** One element of the comprehension of [IPAsset.net_present_value]:
    [cf / (1 + self.discount_rate)**i]. *)
Definition discounted (r : Q) (ic : Z * Q) : result Q :=
  let '(i, cf) := ic in
  p <- float_pow (1 + r) i ;;
  float_div cf p.

(** [IPAsset.net_present_value] *)
Definition IPAsset_net_present_value (self : IPAsset) : result Q :=
  terms <- comprehension (discounted (discount_rate self))
             (enumerate (cash_flows self) 1) ;;
  Ok (np_sum terms).

(** [InternalIP.net_present_value] *)
Definition InternalIP_net_present_value (self : IPAsset)
    (sale_value : Q) (years_until_sale : Z) : result Q :=
  p <- float_pow (1 + discount_rate self) years_until_sale ;;
  float_div sale_value p.

(** Method resolution: [InternalIP] overrides, the other two inherit. *)
Definition net_present_value (self : Asset) : result Q :=
  match self with
  | LicensedIP_obj b => IPAsset_net_present_value b
  | InternalIP_obj b sv y => InternalIP_net_present_value b sv y
  | SubscriptionIP_obj b => IPAsset_net_present_value b
  end.

(** ** The portfolio *)




(** ** Specification-side definitions *)

(** [returns m v]: the call returned normally, with a value equal to [v]. *)
Definition returns (m : result Q) (v : Q) : Prop :=
  match m with
  | Ok w => w == v
  | Raise _ => False
  end.


(** ** The charts *)

(** [np.arange(lo, hi)] on ints: [lo, lo+1, ..., hi-1], empty when
    [hi <= lo]. *)
Definition arange (lo hi : Z) : list Z :=
  map (fun k => (lo + Z.of_nat k)%Z) (seq 0 (Z.to_nat (hi - lo))).

(** A list used as a condition is true when it is not empty. *)
Definition truthy {A : Type} (l : list A) : bool :=
  match l with
  | [] => false
  | _ :: _ => true
  end.

(** The arguments of one call [ax.plot(x, y, marker='o', label=...)]. *)
Record Series : Type := {
  xs : list Z;
  ys : list Q;
  label : string
}.

(** The loop of [plot_cash_flows] over the portfolio: the arguments of the
    calls of [ax.plot], in the order the loop reaches them.  [ax.plot]
    itself belongs to the plotting library and is not modelled: it refuses
    a call whose x and y differ in length, and the loop ends there. *)
Fixpoint plot_lines (x : list Z) (portfolio : list Asset) : list Series :=
  match portfolio with
  | [] => []
  | ip :: rest =>
      if truthy (cash_flows (base_of ip)) then
        {| xs := firstn (List.length (cash_flows (base_of ip))) x;
           ys := cash_flows (base_of ip);
           label := name (base_of ip) |} :: plot_lines x rest
      else plot_lines x rest
  end.

(** [plot_cash_flows(portfolio, years)] *)
Definition plot_cash_flows (portfolio : list Asset) (years : Z)
  : list Series :=
  let x := arange 1 (years + 1) in
  plot_lines x portfolio.




(** ** Binary64 arithmetic *)

(** IEEE 754 binary64 numbers and their operations, rounding to nearest
    even, as the reference implementation [SpecFloat] of the Standard
    Library defines them (53 bits of precision, exponents below 1024). *)
Module B64.

Definition float : Type := spec_float.
Definition prec : Z := 53.
Definition emax : Z := 1024.

Definition add : float -> float -> float := SFadd prec emax.
Definition mul : float -> float -> float := SFmul prec emax.
Definition div : float -> float -> float := SFdiv prec emax.
Definition opp : float -> float := SFopp.
Definition abs : float -> float := SFabs.
Definition eqb : float -> float -> bool := SFeqb.
Definition ltb : float -> float -> bool := SFltb.

(** The float nearest to an integer (infinite when it is out of range). *)
Definition of_int (n : Z) : float := binary_normalize prec emax n 0 false.

Definition zero : float := S754_zero false.
Definition neg_zero : float := S754_zero true.
Definition one : float := S754_finite false 4503599627370496 (-52).

Definition is_zero (x : float) : bool :=
  match x with
  | S754_zero _ => true
  | _ => false
  end.

Definition is_inf (x : float) : bool :=
  match x with
  | S754_infinity _ => true
  | _ => false
  end.

Definition is_nan (x : float) : bool :=
  match x with
  | S754_nan => true
  | _ => false
  end.

Definition sign (x : float) : bool :=
  match x with
  | S754_zero s | S754_infinity s | S754_finite s _ _ => s
  | S754_nan => false
  end.

(** The well-formed representations: a mantissa of at most 53 bits at the
    exponent its magnitude demands. *)
Definition valid (x : float) : bool := valid_binary prec emax x.

(** The rational a finite float stands for. *)
Definition to_Q (x : float) : Q :=
  match x with
  | S754_finite s m e => inject_Z (cond_Zopp s (Zpos m)) * 2 ^ e
  | _ => 0
  end.

End B64.

(** ** Python and NumPy on binary64, and the asset classes on them *)

Module F64.

Import B64.

(** [float(n)] for an int [n]: [OverflowError] when [n] is too large. *)
Definition int_to_float (n : Z) : result float :=
  let w := of_int n in
  if is_inf w then Raise OverflowError else Ok w.

(** [a / b] on floats. *)
Definition float_div (a b : float) : result float :=
  if is_zero b then Raise ZeroDivisionError else Ok (div a b).

(** The integer a float with an integral value stands for. *)
Definition float_to_int (w : float) : Z :=
  match w with
  | S754_finite s m e =>
      cond_Zopp s
        (if (0 <=? e)%Z then Zpos m * 2 ^ e else Zpos m / 2 ^ (- e))%Z
  | _ => 0%Z
  end.

(** [DOUBLE_IS_ODD_INTEGER] of CPython. *)
Definition is_odd_integer (w : float) : bool :=
  match w with
  | S754_finite _ m e =>
      if (0 <? e)%Z then false
      else ((Zpos m mod 2 ^ (- e) =? 0) && Z.odd (Zpos m / 2 ^ (- e)))%Z
  | _ => false
  end.

Section Libm.

(** [pow] of the C library, which CPython calls on a finite positive base
    other than 1 and a finite non-zero exponent.  It is not part of the
    repository and its rounding is not specified, so it is a parameter. *)
Variable libm_pow : float -> float -> float.

(** [iv ** n] for a float [iv] and an int [n]: [float_pow] of CPython.  The
    exponent is first converted to a float, so it is an integral number,
    never a NaN or an infinity.  A result of the C library that is infinite
    becomes [OverflowError]; one that underflowed to zero is returned as it
    is. *)
Definition float_pow (iv : float) (n : Z) : result float :=
  iw <- int_to_float n ;;
  if is_zero iw then Ok one
  else if is_nan iv then Ok iv
  else if is_inf iv then
    if ltb zero iw
    then Ok (if is_odd_integer iw then iv else abs iv)
    else Ok (if is_odd_integer iw then S754_zero (sign iv) else zero)
  else if is_zero iv then
    if ltb iw zero then Raise ZeroDivisionError
    else Ok (if is_odd_integer iw then iv else zero)
  else
    let negate_result := ltb iv zero && is_odd_integer iw in
    let iv := abs iv in
    if eqb iv one then Ok (if negate_result then opp one else one)
    else
      let ix := libm_pow iv iw in
      if is_inf ix then Raise OverflowError
      else Ok (if negate_result then opp ix else ix).

End Libm.

(** A correctly rounded power of a positive base to an integral exponent:
    an instance of [libm_pow] on which the model can be run. *)
Definition pow_rn (x w : float) : float :=
  match x with
  | S754_finite _ m e =>
      match float_to_int w with
      | Z0 => one
      | Zpos p =>
          binary_normalize prec emax (Zpos (m ^ p)) (e * Zpos p) false
      | Zneg p => div one (S754_finite false (m ^ p) (e * Zpos p))
      end
  | _ => S754_nan
  end.

(** *** [np.sum] of a list of floats

    NumPy adds the pairwise sum of the entries to the initial value [0.0].
    The pairwise sum adds fewer than 8 entries from left to right, adds up
    to 128 entries in 8 interleaved accumulators that are then combined as
    a tree, and splits longer inputs in two. *)

Definition at_lane (r : list float) (j : nat) : float := nth j r S754_nan.

(** [r[j] += a[i + j]] for [j = 0..7] *)
Definition lanes_add (r a : list float) : list float :=
  map (fun p => add (fst p) (snd p)) (combine r a).

(** [k] rounds of the unrolled loop over the entries [l] that follow the
    first 8: the accumulators and the entries left over. *)
Fixpoint lanes_loop (k : nat) (r l : list float) : list float * list float :=
  match k with
  | O => (r, l)
  | S k' => lanes_loop k' (lanes_add r (firstn 8 l)) (skipn 8 l)
  end.

(** [n < 8] *)
Definition sum_small (l : list float) : float := fold_left add l neg_zero.

(** [8 <= n <= 128] *)
Definition sum_block (l : list float) : float :=
  let n := List.length l in
  let '(r, rest) := lanes_loop (n / 8 - 1) (firstn 8 l) (skipn 8 l) in
  let res :=
    add (add (add (at_lane r 0) (at_lane r 1))
             (add (at_lane r 2) (at_lane r 3)))
        (add (add (at_lane r 4) (at_lane r 5))
             (add (at_lane r 6) (at_lane r 7))) in
  fold_left add rest res.

(** The recursion on halves is bounded by [fuel]; the length of the list is
    always enough (lemma [pairwise_sum_fuel_enough]). *)
Fixpoint pairwise_sum_fuel (fuel : nat) (l : list float) : float :=
  let n := List.length l in
  if (n <? 8)%nat then sum_small l
  else if (n <=? 128)%nat then sum_block l
  else
    match fuel with
    | O => sum_block l
    | S fuel' =>
        let n2 := (n / 2 - (n / 2) mod 8)%nat in
        add (pairwise_sum_fuel fuel' (firstn n2 l))
            (pairwise_sum_fuel fuel' (skipn n2 l))
    end.

Definition pairwise_sum (l : list float) : float :=
  pairwise_sum_fuel (List.length l) l.

Definition np_sum (l : list float) : float := add zero (pairwise_sum l).

(** *** The asset classes

    Cash flows, sale values, allocations and rates are floats; a widget
    value that is an int enters the arithmetic as the float of the same
    value. *)

Record IPAsset : Type := {
  name : string;
  cash_flows : list float;
  discount_rate : float
}.

Inductive Asset : Type :=
| LicensedIP_obj (base : IPAsset)
| InternalIP_obj (base : IPAsset) (sale_value : float) (years_until_sale : Z)
| SubscriptionIP_obj (base : IPAsset).

Definition base_of (a : Asset) : IPAsset :=
  match a with
  | LicensedIP_obj b => b
  | InternalIP_obj b _ _ => b
  | SubscriptionIP_obj b => b
  end.

(** [IPAsset.__init__(self, name, cash_flows, discount_rate)] *)
Definition IPAsset_init (n : string) (cfs : list float) (r : float)
  : IPAsset :=
  {| name := n; cash_flows := cfs; discount_rate := r |}.

(** [LicensedIP(name, cash_flows, discount_rate)] *)
Definition LicensedIP (n : string) (cfs : list float) (r : float) : Asset :=
  LicensedIP_obj (IPAsset_init n cfs r).

(** [InternalIP(name, sale_value, years_until_sale, discount_rate)] *)
Definition InternalIP (n : string) (sv : float) (years : Z) (r : float)
  : Asset :=
  InternalIP_obj (IPAsset_init n [] r) sv years.

(** [SubscriptionIP(name, total_app_cash_flows, ip_allocation_percent,
    discount_rate)] *)
Definition SubscriptionIP (n : string) (total_app_cash_flows : list float)
    (ip_allocation_percent : float) (r : float) : Asset :=
  let allocated_flows :=
    map (fun cf => mul cf ip_allocation_percent) total_app_cash_flows in
  SubscriptionIP_obj (IPAsset_init n allocated_flows r).

Section Methods.

Variable libm_pow : float -> float -> float.

(** [cf / (1 + self.discount_rate)**i] *)
Definition discounted (r : float) (ic : Z * float) : result float :=
  let '(i, cf) := ic in
  p <- float_pow libm_pow (add one r) i ;;
  float_div cf p.

(** [IPAsset.net_present_value] *)
Definition IPAsset_net_present_value (self : IPAsset) : result float :=
  terms <- comprehension (discounted (discount_rate self))
             (enumerate (cash_flows self) 1) ;;
  Ok (np_sum terms).

(** [InternalIP.net_present_value] *)
Definition InternalIP_net_present_value (self : IPAsset)
    (sale_value : float) (years_until_sale : Z) : result float :=
  p <- float_pow libm_pow (add one (discount_rate self)) years_until_sale ;;
  float_div sale_value p.

(** Method resolution: [InternalIP] overrides, the other two inherit. *)
Definition net_present_value (self : Asset) : result float :=
  match self with
  | LicensedIP_obj b => IPAsset_net_present_value b
  | InternalIP_obj b sv y => InternalIP_net_present_value b sv y
  | SubscriptionIP_obj b => IPAsset_net_present_value b
  end.

End Methods.

End F64.

(** ** Specification-side definitions (binary64 layer) *)

(** The discount factor of year [i], [(1 + r)**i]. *)
Definition discount_factor (libm_pow : B64.float -> B64.float -> B64.float)
    (r : B64.float) (i : nat) : result B64.float :=
  F64.float_pow libm_pow (B64.add B64.one r) (Z.of_nat i).

(** The factor of year [i] evaluates, without exception, to the non-zero
    number [p]. *)
Definition factor_ok (libm_pow : B64.float -> B64.float -> B64.float)
    (r : B64.float) (i : nat) (p : B64.float) : Prop :=
  discount_factor libm_pow r i = Ok p /\ B64.is_zero p = false.

(** The quotients [cf[i] / p[i]], entry by entry. *)
Definition quotients (cfs ps : list B64.float) : list B64.float :=
  map (fun cp => B64.div (fst cp) (snd cp)) (combine cfs ps).

(** Two floats are the same number: identical, or both a zero (whose signs
    may differ). *)
Definition same_number (x y : B64.float) : Prop :=
  x = y \/ (B64.is_zero x = true /\ B64.is_zero y = true).

(** The entries of a list that are not a zero. *)
Definition support (l : list B64.float) : list B64.float :=
  filter (fun x => negb (B64.is_zero x)) l.

(** ** Auxiliary facts (exact layer) *)





(** ** Properties of the valuation (exact layer) *)






(** C10. Whatever the discount rate, an asset that runs the base algorithm
    on an empty cash-flow sequence returns 0: no term is evaluated, so no
    division takes place. *)
Theorem net_present_value_empty (n : string) (r : Q) :
  IPAsset_net_present_value (IPAsset_init n [] r) = Ok 0
  /\ net_present_value (LicensedIP n [] r) = Ok 0
  /\ (forall a : Q, net_present_value (SubscriptionIP n [] a r) = Ok 0).
Proof. repeat split. Qed.

(** X3. With [years_until_sale = 0] an [InternalIP] is worth its sale value
    at every discount rate, -1 included. *)
Theorem InternalIP_npv_years_zero (n : string) (sv r : Q) :
  returns (net_present_value (InternalIP n sv 0 r)) sv.
Proof.
  simpl. unfold InternalIP_net_present_value, float_pow.
  change (0 <? 0)%Z with false. rewrite andb_false_r. cbn [bind].
  unfold float_div. simpl. field.
Qed.


(** ** Properties of the cash-flow chart *)

Lemma plot_lines_app (x : list Z) (p q : list Asset) :
  plot_lines x (p ++ q) = plot_lines x p ++ plot_lines x q.
Proof.
  induction p as [|ip t IH]; simpl; [reflexivity|].
  destruct (truthy (cash_flows (base_of ip))); simpl; now rewrite IH.
Qed.

Lemma firstn_of_seq (n a m : nat) :
  firstn n (seq a m) = seq a (Nat.min n m).
Proof.
  revert a m; induction n as [|n IH]; intros a m; [reflexivity|].
  destruct m as [|m]; [reflexivity|]. simpl. now rewrite IH.
Qed.

Lemma firstn_arange (n : nat) (lo hi : Z) :
  firstn n (arange lo hi) = arange lo (Z.min (lo + Z.of_nat n) hi).
Proof.
  unfold arange. rewrite firstn_map, firstn_of_seq. do 2 f_equal. lia.
Qed.

Lemma arange_length (lo hi : Z) :
  List.length (arange lo hi) = Z.to_nat (hi - lo).
Proof. unfold arange. now rewrite length_map, length_seq. Qed.

Lemma plot_lines_in (x : list Z) (p : list Asset) (s : Series) :
  In s (plot_lines x p) ->
  exists ip, In ip p
    /\ cash_flows (base_of ip) <> []
    /\ s = {| xs := firstn (List.length (cash_flows (base_of ip))) x;
              ys := cash_flows (base_of ip);
              label := name (base_of ip) |}.
Proof.
  induction p as [|ip t IH]; simpl; [tauto|].
  destruct (cash_flows (base_of ip)) as [|c cs] eqn:E; simpl.
  - intros H. destruct (IH H) as (ip' & Hin & Hne & Hs).
    exists ip'. auto.
  - intros [<-|H].
    + exists ip. rewrite E. repeat split; [now left | discriminate].
    + destruct (IH H) as (ip' & Hin & Hne & Hs). exists ip'. auto.
Qed.

(** X13. An asset whose cash-flow list is empty gets no line in the
    cash-flow chart: the chart of a portfolio is the chart of the portfolio
    without it.  Every [InternalIP] is such an asset. *)
Theorem chart_omits_empty_cash_flows
    (p q : list Asset) (ip : Asset) (years : Z) :
  cash_flows (base_of ip) = [] ->
  plot_cash_flows (p ++ ip :: q) years = plot_cash_flows (p ++ q) years
  /\ (forall (n : string) (sv : Q) (y : Z) (r : Q),
        plot_cash_flows (p ++ InternalIP n sv y r :: q) years =
        plot_cash_flows (p ++ q) years).
Proof.
  intros H. unfold plot_cash_flows. split.
  - rewrite !plot_lines_app. simpl. now rewrite H.
  - intros n sv y r. now rewrite !plot_lines_app.
Qed.

Lemma chart_omits_empty_cash_flows_witness :
  cash_flows (base_of (SubscriptionIP "S" [] (1 # 2) (8 # 100))) = []
  /\ plot_cash_flows
       ([LicensedIP "L" [100; 200] (8 # 100)] ++
        SubscriptionIP "S" [] (1 # 2) (8 # 100) :: []) 2 =
     plot_cash_flows ([LicensedIP "L" [100; 200] (8 # 100)] ++ []) 2.
Proof.
  split; [reflexivity|].
  apply (chart_omits_empty_cash_flows
           [LicensedIP "L" [100; 200] (8 # 100)] []
           (SubscriptionIP "S" [] (1 # 2) (8 # 100)) 2).
  reflexivity.
Defined.

(** X14. Every line of the cash-flow chart belongs to an asset of the
    portfolio with a non-empty cash-flow list, carries its name and its
    cash flows, and has as x values the years [1, 2, ...] up to the number
    of cash flows or [years], whichever is smaller.  The x and y values
    have the same number of points exactly when the asset has no more cash
    flows than [years]. *)
Theorem chart_line_points (p : list Asset) (years : Z) (s : Series) :
  In s (plot_cash_flows p years) ->
  (exists ip, In ip p /\ ys s = cash_flows (base_of ip)
              /\ label s = name (base_of ip))
  /\ ys s <> []
  /\ xs s = arange 1 (Z.min (Z.of_nat (List.length (ys s))) years + 1)
  /\ (List.length (xs s) = List.length (ys s) <->
      (Z.of_nat (List.length (ys s)) <= years)%Z).
Proof.
  intros H. apply plot_lines_in in H. destruct H as (ip & Hin & Hne & ->).
  cbn [xs ys label].
  assert (Hx : firstn (List.length (cash_flows (base_of ip)))
                 (arange 1 (years + 1)) =
               arange 1 (Z.min (Z.of_nat (List.length
                                  (cash_flows (base_of ip)))) years + 1)).
  { rewrite firstn_arange. f_equal. lia. }
  split; [exists ip; auto|]. split; [exact Hne|]. split; [exact Hx|].
  rewrite Hx, arange_length.
  assert (0 < List.length (cash_flows (base_of ip)))%nat
    by (destruct (cash_flows (base_of ip)); [congruence | simpl; lia]).
  lia.
Qed.

Lemma chart_line_points_witness :
  In {| xs := [1; 2]%Z; ys := [100; 200; 300]; label := "L" |}
     (plot_cash_flows [LicensedIP "L" [100; 200; 300] (8 # 100)] 2)
  /\ [1; 2]%Z = arange 1 (Z.min (Z.of_nat 3) 2 + 1).
Proof.
  assert (H : In {| xs := [1; 2]%Z; ys := [100; 200; 300]; label := "L" |}
                (plot_cash_flows [LicensedIP "L" [100; 200; 300] (8 # 100)] 2))
    by (left; reflexivity).
  split; [exact H|].
  exact (proj1 (proj2 (proj2 (chart_line_points _ _ _ H)))).
Defined.






(** ** Auxiliary facts (binary64 layer) *)

Module Binary64Facts.

Import B64 F64.

Local Open Scope Z_scope.

Lemma canonical_fexp (m : positive) (e : Z) :
  bounded prec emax m e = true ->
  fexp prec emax (Zpos (digits2_pos m) + e) = e /\ e <= 971.
Proof.
  unfold bounded, canonical_mantissa. rewrite andb_true_iff, Z.eqb_eq, Z.leb_le.
  unfold prec, emax. lia.
Qed.

Lemma round_exact (s : bool) (m : positive) (e : Z) :
  bounded prec emax m e = true ->
  binary_round_aux prec emax s (Zpos m) e loc_Exact = S754_finite s m e.
Proof.
  intros H. destruct (canonical_fexp m e H) as [Hc He].
  unfold binary_round_aux, shr_fexp. cbn [Zdigits2 shr_record_of_loc].
  rewrite Hc, Z.sub_diag. cbn [shr shr_m loc_of_shr_record round_nearest_even].
  cbn [Zdigits2 shr_record_of_loc]. rewrite Hc, Z.sub_diag. cbn [shr shr_m].
  replace (e <=? emax - prec) with true; [reflexivity|].
  symmetry. apply Z.leb_le. unfold emax, prec. lia.
Qed.

Lemma round_exact_double (s : bool) (m : positive) (e : Z) :
  bounded prec emax m e = true ->
  binary_round_aux prec emax s (Zpos m~0) (e - 1) loc_Exact = S754_finite s m e.
Proof.
  intros H. destruct (canonical_fexp m e H) as [Hc He].
  unfold binary_round_aux, shr_fexp. cbn [Zdigits2 shr_record_of_loc digits2_pos].
  replace (Z.pos (Pos.succ (digits2_pos m)) + (e - 1))
    with (Zpos (digits2_pos m) + e) by lia.
  rewrite Hc. replace (e - (e - 1)) with 1 by lia.
  cbn [shr iter_pos shr_1 orb shr_m loc_of_shr_record round_nearest_even].
  replace (e - 1 + 1) with e by lia.
  cbn [Zdigits2 shr_record_of_loc]. rewrite Hc, Z.sub_diag. cbn [shr shr_m].
  replace (e <=? emax - prec) with true; [reflexivity|].
  symmetry. apply Z.leb_le. unfold emax, prec. lia.
Qed.

Lemma div_core_one (m : positive) (e : Z) :
  bounded prec emax m e = true ->
  SFdiv_core_binary prec emax (Zpos m) e 4503599627370496 (-52) =
    (Zpos m, e, loc_Exact) \/
  SFdiv_core_binary prec emax (Zpos m) e 4503599627370496 (-52) =
    (Zpos m~0, e - 1, loc_Exact).
Proof.
  intros H. destruct (canonical_fexp m e H) as [Hc He].
  unfold SFdiv_core_binary. cbn [Zdigits2].
  change (Z.pos (digits2_pos 4503599627370496)) with 53.
  set (d := Zpos (digits2_pos m)) in *.
  assert (Hd : 0 < d) by (unfold d; lia).
  unfold fexp, emin, prec, emax in *.
  destruct (Z.eq_dec (Z.max (d + e - (53 + -52) - 53) (3 - 1024 - 53)) e) as [E|E].
  - left. rewrite E. replace (Z.min e (e - -52)) with e by lia.
    replace (e - -52 - e) with 52 by lia.
    rewrite Z.shiftl_mul_pow2 by lia.
    replace (Z.div_eucl (Z.pos m * 2 ^ 52) 4503599627370496) with (Zpos m, 0).
    + reflexivity.
    + symmetry. change 4503599627370496 with (2 ^ 52).
      pose proof (Z.div_eucl_eq (Z.pos m * 2 ^ 52) (2 ^ 52) ltac:(lia)) as Hq.
      pose proof (Z.mod_pos_bound (Z.pos m * 2 ^ 52) (2 ^ 52) ltac:(lia)) as Hr.
      unfold Z.modulo in Hr.
      destruct (Z.div_eucl (Z.pos m * 2 ^ 52) (2 ^ 52)) as [q r].
      f_equal; nia.
  - right.
    replace (Z.max (d + e - (53 + -52) - 53) (3 - 1024 - 53)) with (e - 1) by lia.
    replace (Z.min (e - 1) (e - -52)) with (e - 1) by lia.
    replace (e - -52 - (e - 1)) with 53 by lia.
    rewrite Z.shiftl_mul_pow2 by lia.
    replace (Z.div_eucl (Z.pos m * 2 ^ 53) 4503599627370496) with (Zpos m~0, 0).
    + reflexivity.
    + symmetry. change 4503599627370496 with (2 ^ 52).
      pose proof (Z.div_eucl_eq (Z.pos m * 2 ^ 53) (2 ^ 52) ltac:(lia)) as Hq.
      pose proof (Z.mod_pos_bound (Z.pos m * 2 ^ 53) (2 ^ 52) ltac:(lia)) as Hr.
      unfold Z.modulo in Hr.
      destruct (Z.div_eucl (Z.pos m * 2 ^ 53) (2 ^ 52)) as [q r].
      change (2 ^ 53) with (2 * 2 ^ 52) in *.
      f_equal; nia.
Qed.

Lemma div_one (x : float) : valid x = true -> div x one = x.
Proof.
  destruct x as [s|s| |s m e]; try reflexivity.
  - destruct s; reflexivity.
  - destruct s; reflexivity.
  - intros H. unfold valid, valid_binary in H.
    unfold div, SFdiv, one.
    destruct (div_core_one m e H) as [E|E]; rewrite E; rewrite xorb_false_r.
    + now apply round_exact.
    + now apply round_exact_double.
Qed.

Lemma digits2_pos_bounds (p : positive) :
  2 ^ (Zpos (digits2_pos p) - 1) <= Zpos p < 2 ^ Zpos (digits2_pos p).
Proof.
  induction p as [p IH|p IH|]; cbn [digits2_pos].
  - rewrite Pos2Z.inj_succ. replace (Z.succ (Zpos (digits2_pos p)) - 1)
      with (Z.succ (Zpos (digits2_pos p) - 1)) by lia.
    rewrite !Z.pow_succ_r by lia. lia.
  - rewrite Pos2Z.inj_succ. replace (Z.succ (Zpos (digits2_pos p)) - 1)
      with (Z.succ (Zpos (digits2_pos p) - 1)) by lia.
    rewrite !Z.pow_succ_r by lia. lia.
  - cbn. lia.
Qed.

Lemma digits2_pos_small (p : positive) :
  Zpos p < 2 ^ 53 -> Zpos (digits2_pos p) <= 53.
Proof.
  intros H. destruct (Z_le_gt_dec (Zpos (digits2_pos p)) 53) as [|G]; trivial.
  exfalso. pose proof (digits2_pos_bounds p) as [Hlo _].
  assert (2 ^ 53 <= 2 ^ (Zpos (digits2_pos p) - 1))
    by (apply Z.pow_le_mono_r; lia).
  lia.
Qed.

Lemma digits2_pos_iter (p : positive) (k : positive) :
  Zpos (digits2_pos (Pos.iter xO p k)) = Zpos (digits2_pos p) + Zpos k.
Proof.
  revert p. induction k using Pos.peano_ind; intros p.
  - cbn [Pos.iter digits2_pos]. lia.
  - rewrite Pos.iter_succ. cbn [digits2_pos]. rewrite Pos2Z.inj_succ, IHk. lia.
Qed.

Lemma of_int_finite (n : Z) :
  0 < n < 2 ^ 53 ->
  exists m e, of_int n = S754_finite false m e /\ bounded prec emax m e = true.
Proof.
  intros Hn. destruct n as [|p|p]; try lia.
  unfold of_int, binary_normalize, binary_round.
  pose proof (digits2_pos_small p ltac:(lia)) as Hd.
  set (d := Zpos (digits2_pos p)) in *.
  assert (Hd0 : 0 < d) by (unfold d; lia).
  replace (fexp prec emax (d + 0)) with (d - 53)
    by (unfold fexp, emin, prec, emax; lia).
  unfold shl_align. replace (d - 53 - 0) with (d - 53) by lia.
  destruct (d - 53) as [|q|q] eqn:E; try lia.
  - assert (B : bounded prec emax p 0 = true).
    { unfold bounded, canonical_mantissa. fold d.
      apply andb_true_iff. split; [apply Z.eqb_eq | apply Z.leb_le];
        unfold fexp, emin, prec, emax; lia. }
    exists p, 0. split; [now apply round_exact | exact B].
  - assert (B : bounded prec emax (Pos.iter xO p q) (Zneg q) = true).
    { unfold bounded, canonical_mantissa. rewrite digits2_pos_iter. fold d.
      apply andb_true_iff. split; [apply Z.eqb_eq | apply Z.leb_le];
        unfold fexp, emin, prec, emax; lia. }
    exists (Pos.iter xO p q), (Zneg q). split; [now apply round_exact | exact B].
Qed.

Section Pow.
Variable libm_pow : float -> float -> float.

Lemma float_pow_one (n : Z) :
  0 <= n < 2 ^ 53 -> float_pow libm_pow one n = Ok one.
Proof.
  intros Hn. unfold float_pow, int_to_float.
  destruct (Z.eq_dec n 0) as [->|Hz]; [reflexivity|].
  destruct (of_int_finite n ltac:(lia)) as (m & e & -> & _).
  reflexivity.
Qed.
End Pow.


Local Open Scope nat_scope.

Lemma support_app (l1 l2 : list float) :
  support (l1 ++ l2) = support l1 ++ support l2.
Proof. apply filter_app. Qed.

Lemma support_cons (x : float) (l : list float) :
  support (x :: l) = support [x] ++ support l.
Proof. unfold support. simpl. now destruct (is_zero x). Qed.

Lemma support_add (a b : float) :
  List.length (support [a] ++ support [b]) <= 1 ->
  support [add a b] = support [a] ++ support [b].
Proof.
  unfold support. simpl.
  destruct a as [sa|sa| |sa ma ea], b as [sb|sb| |sb mb eb]; simpl;
    try destruct sa; try destruct sb; simpl; try reflexivity; lia.
Qed.

Lemma support_fold (l : list float) (acc : float) :
  List.length (support (acc :: l)) <= 1 ->
  support [fold_left add l acc] = support (acc :: l).
Proof.
  revert acc. induction l as [|x t IH]; intros acc H; [reflexivity|].
  assert (E : support (acc :: x :: t) =
              (support [acc] ++ support [x]) ++ support t).
  { rewrite (support_cons acc (x :: t)), (support_cons x t).
    now rewrite app_assoc. }
  rewrite E in *. rewrite length_app in H.
  assert (A : support [add acc x] = support [acc] ++ support [x])
    by (apply support_add; lia).
  cbn [fold_left]. rewrite IH; rewrite (support_cons (add acc x) t), A.
  - reflexivity.
  - rewrite length_app. lia.
Qed.

Lemma support_sum_small (l : list float) :
  List.length (support l) <= 1 -> support [sum_small l] = support l.
Proof. intros H. unfold sum_small. now rewrite support_fold. Qed.

Lemma support_lanes_add (r a : list float) :
  List.length r = List.length a ->
  List.length (support r ++ support a) <= 1 ->
  support (lanes_add r a) = support r ++ support a.
Proof.
  revert a. induction r as [|x r IH]; intros [|y a] Hl H; try discriminate.
  - reflexivity.
  - unfold lanes_add. cbn [combine map fst snd]. fold (lanes_add r a).
    rewrite (support_cons x r), (support_cons y a) in *.
    rewrite !length_app in H.
    rewrite support_cons, support_add by (rewrite length_app; lia).
    rewrite IH by (try rewrite length_app; simpl in Hl; lia).
    destruct (support [x]) as [|? [|]], (support [y]) as [|? [|]],
             (support r) as [|? [|]], (support a) as [|? [|]];
      simpl in *; try reflexivity; lia.
Qed.

Lemma lanes_add_length (r a : list float) :
  List.length r = List.length a ->
  List.length (lanes_add r a) = List.length r.
Proof.
  intros H. unfold lanes_add. rewrite length_map, length_combine. lia.
Qed.

Lemma support_lanes_loop (k : nat) (r l : list float) :
  List.length r = 8 -> 8 * k <= List.length l ->
  List.length (support (r ++ l)) <= 1 ->
  List.length (fst (lanes_loop k r l)) = 8
  /\ support (fst (lanes_loop k r l) ++ snd (lanes_loop k r l)) =
     support (r ++ l).
Proof.
  revert r l. induction k as [|k IH]; intros r l Hr Hl H; [now split|].
  cbn [lanes_loop].
  assert (Ha : List.length (firstn 8 l) = 8) by (rewrite length_firstn; lia).
  assert (E : support (lanes_add r (firstn 8 l) ++ skipn 8 l) = support (r ++ l)).
  { rewrite <- (firstn_skipn 8 l) at 3.
    rewrite !support_app in *. rewrite <- (firstn_skipn 8 l) in H.
    rewrite support_app, !length_app in H.
    rewrite support_lanes_add by (try rewrite length_app; lia).
    now rewrite app_assoc. }
  destruct (IH (lanes_add r (firstn 8 l)) (skipn 8 l)) as [H1 H2].
  - rewrite lanes_add_length; lia.
  - rewrite length_skipn. lia.
  - now rewrite E.
  - split; [exact H1 | now rewrite H2].
Qed.

Lemma support_tree (r : list float) :
  List.length r = 8 -> List.length (support r) <= 1 ->
  support
    [add (add (add (at_lane r 0) (at_lane r 1)) (add (at_lane r 2) (at_lane r 3)))
         (add (add (at_lane r 4) (at_lane r 5)) (add (at_lane r 6) (at_lane r 7)))]
  = support r.
Proof.
  intros Hl.
  destruct r as [|r0 [|r1 [|r2 [|r3 [|r4 [|r5 [|r6 [|r7 [|]]]]]]]]];
    try discriminate.
  unfold at_lane. cbn [nth]. clear Hl.
  assert (E : support [r0; r1; r2; r3; r4; r5; r6; r7] =
              support [r0] ++ support [r1] ++ support [r2] ++ support [r3] ++
              support [r4] ++ support [r5] ++ support [r6] ++ support [r7]).
  { rewrite (support_cons r0), (support_cons r1), (support_cons r2),
      (support_cons r3), (support_cons r4), (support_cons r5),
      (support_cons r6). reflexivity. }
  rewrite E. rewrite !length_app. intros H.
  assert (H01 : support [add r0 r1] = support [r0] ++ support [r1])
    by (apply support_add; rewrite length_app; lia).
  assert (H23 : support [add r2 r3] = support [r2] ++ support [r3])
    by (apply support_add; rewrite length_app; lia).
  assert (H45 : support [add r4 r5] = support [r4] ++ support [r5])
    by (apply support_add; rewrite length_app; lia).
  assert (H67 : support [add r6 r7] = support [r6] ++ support [r7])
    by (apply support_add; rewrite length_app; lia).
  assert (H03 : support [add (add r0 r1) (add r2 r3)] =
                (support [r0] ++ support [r1]) ++ support [r2] ++ support [r3]).
  { rewrite support_add; rewrite H01, H23; [reflexivity|].
    rewrite !length_app. lia. }
  assert (H47 : support [add (add r4 r5) (add r6 r7)] =
                (support [r4] ++ support [r5]) ++ support [r6] ++ support [r7]).
  { rewrite support_add; rewrite H45, H67; [reflexivity|].
    rewrite !length_app. lia. }
  rewrite support_add; rewrite H03, H47.
  - now rewrite <- !app_assoc.
  - rewrite !length_app. lia.
Qed.

Lemma support_split (n : nat) (l : list float) :
  support l = support (firstn n l) ++ support (skipn n l).
Proof. now rewrite <- support_app, firstn_skipn. Qed.

Lemma support_sum_block (l : list float) :
  8 <= List.length l ->
  List.length (support l) <= 1 -> support [sum_block l] = support l.
Proof.
  intros Hn H. unfold sum_block.
  pose proof (support_lanes_loop (List.length l / 8 - 1) (firstn 8 l)
                (skipn 8 l)) as L.
  rewrite firstn_skipn in L.
  destruct L as [L1 L2]; trivial.
  - rewrite length_firstn. lia.
  - rewrite length_skipn.
    pose proof (Nat.div_mod_eq (List.length l) 8).
    pose proof (Nat.mod_upper_bound (List.length l) 8). lia.
  - destruct (lanes_loop (List.length l / 8 - 1) (firstn 8 l) (skipn 8 l))
      as [r rest]. cbn [fst snd] in *.
    rewrite support_app in L2. rewrite <- L2 in H. rewrite length_app in H.
    rewrite support_fold; rewrite support_cons, support_tree; trivial; try lia.
    rewrite length_app. lia.
Qed.

Lemma support_pairwise_fuel (fuel : nat) (l : list float) :
  List.length (support l) <= 1 ->
  support [pairwise_sum_fuel fuel l] = support l.
Proof.
  revert l. induction fuel as [|fuel IH]; intros l H; cbn [pairwise_sum_fuel].
  - destruct (Nat.ltb_spec (List.length l) 8);
      [now apply support_sum_small|].
    destruct (List.length l <=? 128); now apply support_sum_block.
  - destruct (Nat.ltb_spec (List.length l) 8);
      [now apply support_sum_small|].
    destruct (List.length l <=? 128); [now apply support_sum_block|].
    set (n2 := List.length l / 2 - (List.length l / 2) mod 8).
    rewrite (support_split n2 l) in *. rewrite length_app in H.
    rewrite support_add; rewrite !IH by lia; [reflexivity|].
    rewrite length_app. lia.
Qed.

Lemma support_np_sum (l : list float) :
  List.length (support l) <= 1 -> support [np_sum l] = support l.
Proof.
  intros H. unfold np_sum, pairwise_sum.
  rewrite support_add; rewrite support_pairwise_fuel by exact H.
  - reflexivity.
  - simpl. exact H.
Qed.

Lemma pairwise_sum_fuel_enough (fuel fuel' : nat) (l : list float) :
  List.length l <= fuel -> List.length l <= fuel' ->
  pairwise_sum_fuel fuel l = pairwise_sum_fuel fuel' l.
Proof.
  revert fuel' l. induction fuel as [|fuel IH]; intros fuel' l H H'.
  - destruct l; [|simpl in H; lia]. now destruct fuel'.
  - destruct fuel' as [|fuel'].
    + destruct l; [reflexivity | simpl in H'; lia].
    + cbn [pairwise_sum_fuel].
      destruct (Nat.ltb_spec (List.length l) 8); [reflexivity|].
      destruct (Nat.leb_spec (List.length l) 128); [reflexivity|].
      set (n2 := List.length l / 2 - (List.length l / 2) mod 8).
      assert (Hn2 : 0 < n2 < List.length l).
      { unfold n2.
        pose proof (Nat.div_mod_eq (List.length l) 2).
        pose proof (Nat.mod_upper_bound (List.length l) 2).
        pose proof (Nat.mod_upper_bound (List.length l / 2) 8). lia. }
      f_equal; apply IH; rewrite ?length_firstn, ?length_skipn; lia.
Qed.

Section Valuation.

Variable libm_pow : float -> float -> float.

Lemma comprehension_quotients (r : float) (l : list float) (start : nat)
    (ps : list float) :
  Forall2 (factor_ok libm_pow r) (seq start (List.length l)) ps ->
  comprehension (F64.discounted libm_pow r) (enumerate l (Z.of_nat start)) =
  Ok (quotients l ps).
Proof.
  revert start ps. induction l as [|x t IH]; intros start ps H.
  - inversion H. reflexivity.
  - cbn [List.length seq] in H. inversion H as [|i p si ps' [Hp Hz] Ht]; subst.
    cbn [enumerate comprehension]. unfold F64.discounted at 1.
    unfold discount_factor in Hp. rewrite Hp. cbn [bind].
    unfold float_div. rewrite Hz. cbn [bind].
    replace (Z.of_nat start + 1)%Z with (Z.of_nat (S start)) by lia.
    rewrite (IH _ _ Ht). reflexivity.
Qed.

Lemma IPAsset_npv_quotients (self : F64.IPAsset) (ps : list float) :
  Forall2 (factor_ok libm_pow (F64.discount_rate self))
    (seq 1 (List.length (F64.cash_flows self))) ps ->
  F64.IPAsset_net_present_value libm_pow self =
  Ok (np_sum (quotients (F64.cash_flows self) ps)).
Proof.
  intros H. unfold F64.IPAsset_net_present_value.
  pose proof (comprehension_quotients _ _ 1 ps H) as E.
  change (Z.of_nat 1) with 1%Z in E. now rewrite E.
Qed.

End Valuation.

Lemma div_zero_num (x p : float) :
  is_zero x = true -> is_zero p = false -> is_nan p = false ->
  is_zero (div x p) = true.
Proof. destruct x, p; simpl; try discriminate; reflexivity. Qed.

Lemma support_quotients_zero (zs ps : list float) :
  Forall (fun x => is_zero x = true) zs ->
  Forall (fun p => is_zero p = false) ps ->
  Forall (fun p => is_nan p = false) ps ->
  support (quotients zs ps) = [].
Proof.
  intros H. revert ps. induction H as [|z zs Hz _ IH]; intros ps Hp Hn.
  - reflexivity.
  - destruct ps as [|p ps]; [reflexivity|].
    inversion Hp; inversion Hn; subst.
    unfold quotients. cbn [combine map fst snd]. fold (quotients zs ps).
    rewrite support_cons, IH by assumption.
    unfold support. cbn [filter]. now rewrite div_zero_num.
Qed.

Lemma quotients_app (l1 l2 ps : list float) :
  quotients (l1 ++ l2) ps =
  quotients l1 (firstn (List.length l1) ps) ++
  quotients l2 (skipn (List.length l1) ps).
Proof.
  revert ps. induction l1 as [|x t IH]; intros ps; [reflexivity|].
  destruct ps as [|p ps]; [now destruct l2|].
  unfold quotients in *. cbn [app combine map List.length firstn skipn].
  now rewrite IH.
Qed.

Lemma same_number_support (x q : float) :
  support [x] = support [q] -> same_number x q.
Proof.
  unfold support, same_number. simpl.
  destruct (is_zero x) eqn:Ex, (is_zero q) eqn:Eq; simpl; intros H;
    try discriminate.
  - now right.
  - injection H. now left.
Qed.

Lemma Forall_split {A : Type} (P : A -> Prop) (n : nat) (l : list A) :
  Forall P l -> Forall P (firstn n l) /\ Forall P (skipn n l).
Proof.
  intros H. rewrite <- (firstn_skipn n l) in H. now apply Forall_app in H.
Qed.

Lemma skipn_nth_error {A : Type} (k : nat) (l : list A) (x : A) :
  nth_error l k = Some x -> skipn k l = x :: skipn (S k) l.
Proof.
  revert l. induction k as [|k IH]; intros [|y l] H; simpl in H;
    try discriminate.
  - now injection H as ->.
  - cbn [skipn]. now apply IH.
Qed.

Lemma single_cash_flow_sum (zs1 zs2 ps : list float) (cf p : float) :
  Forall (fun x => is_zero x = true) zs1 ->
  Forall (fun x => is_zero x = true) zs2 ->
  Forall (fun p => is_zero p = false) ps ->
  Forall (fun p => is_nan p = false) ps ->
  nth_error ps (List.length zs1) = Some p ->
  same_number (np_sum (quotients (zs1 ++ cf :: zs2) ps)) (div cf p).
Proof.
  intros H1 H2 Hz Hn Hp. apply same_number_support.
  assert (E : support (quotients (zs1 ++ cf :: zs2) ps) = support [div cf p]).
  { rewrite quotients_app, support_app.
    destruct (Forall_split _ (List.length zs1) ps Hz) as [Hz1 _].
    destruct (Forall_split _ (List.length zs1) ps Hn) as [Hn1 _].
    destruct (Forall_split _ (S (List.length zs1)) ps Hz) as [_ Hz2].
    destruct (Forall_split _ (S (List.length zs1)) ps Hn) as [_ Hn2].
    rewrite support_quotients_zero by assumption.
    rewrite (skipn_nth_error _ _ _ Hp).
    unfold quotients. cbn [combine map fst snd app].
    fold (quotients zs2 (skipn (S (List.length zs1)) ps)).
    rewrite support_cons, support_quotients_zero by assumption.
    now rewrite app_nil_r. }
  rewrite support_np_sum; rewrite E; trivial.
  unfold support. simpl. destruct (is_zero (div cf p)); simpl; lia.
Qed.

Lemma factor_ok_nonzero (libm_pow : float -> float -> float) (r : float)
    (l : list nat) (ps : list float) :
  Forall2 (factor_ok libm_pow r) l ps ->
  Forall (fun p => is_zero p = false) ps.
Proof. induction 1 as [|i p l ps [_ Hz] _ IH]; constructor; assumption. Qed.

Lemma factor_ok_nth (libm_pow : float -> float -> float) (r : float)
    (start n k : nat) (ps : list float) (p : float) :
  Forall2 (factor_ok libm_pow r) (seq start n) ps ->
  k < n ->
  discount_factor libm_pow r (start + k) = Ok p ->
  nth_error ps k = Some p.
Proof.
  revert start k ps. induction n as [|n IH]; intros start k ps H Hk Hp; [lia|].
  cbn [seq] in H. inversion H as [|i q l ps' [Hq _] Ht]; subst.
  destruct k as [|k].
  - rewrite Nat.add_0_r in Hp. rewrite Hq in Hp. now injection Hp as ->.
  - cbn [nth_error]. apply (IH (S start)); [exact Ht | lia |].
    now replace (S start + k) with (start + S k) by lia.
Qed.

Lemma add_one_zero (r : float) : is_zero r = true -> add one r = one.
Proof. destruct r; try discriminate. reflexivity. Qed.

Lemma factors_one (libm_pow : float -> float -> float) (r : float)
    (start n : nat) :
  add one r = one ->
  (Z.of_nat (start + n) <= 2 ^ 53)%Z ->
  Forall2 (factor_ok libm_pow r) (seq start n) (repeat one n).
Proof.
  intros Hr. revert start. induction n as [|n IH]; intros start Hn.
  - constructor.
  - cbn [seq repeat]. constructor.
    + split; [|reflexivity]. unfold discount_factor. rewrite Hr.
      apply float_pow_one. lia.
    + apply IH. lia.
Qed.

Lemma quotients_one (l : list float) :
  Forall (fun x => valid x = true) l ->
  quotients l (repeat one (List.length l)) = l.
Proof.
  induction 1 as [|x l Hx _ IH]; [reflexivity|].
  unfold quotients in *. cbn [List.length repeat combine map fst snd].
  now rewrite div_one, IH.
Qed.


Lemma enumerate_app {A : Type} (l1 l2 : list A) (start : Z) :
  enumerate (l1 ++ l2) start =
  enumerate l1 start ++ enumerate l2 (start + Z.of_nat (List.length l1)).
Proof.
  revert start; induction l1 as [|x t IH]; intros start.
  - simpl. now rewrite Z.add_0_r.
  - cbn [app enumerate List.length]. rewrite IH. simpl app.
    do 3 f_equal. lia.
Qed.

Lemma comprehension_app {A B : Type} (f : A -> result B) (l1 l2 : list A) :
  comprehension f (l1 ++ l2) =
  (a <- comprehension f l1 ;; b <- comprehension f l2 ;; Ok (a ++ b)).
Proof.
  induction l1 as [|x t IH]; simpl.
  - now destruct (comprehension f l2).
  - destruct (f x) as [y|e]; simpl; [|reflexivity].
    rewrite IH. destruct (comprehension f t) as [ys|e]; simpl; [|reflexivity].
    now destruct (comprehension f l2).
Qed.

End Binary64Facts.

(** ** Properties of the valuation (binary64 layer) *)

(** C1. Whenever the discount factors [(1 + r)**i] of the years
    [i = 1, ..., n] evaluate without exception to non-zero numbers,
    [IPAsset.net_present_value], which [LicensedIP] and [SubscriptionIP]
    inherit, returns [np.sum] of the binary64 quotients
    [cf[i] / (1 + r)**i]: the first entry is discounted by one period.
    When every entry but the one at position [i] is a zero, the result is
    that entry's quotient [cf / (1 + r)**i]. *)
Theorem npv_binary64_formula
    (libm_pow : B64.float -> B64.float -> B64.float)
    (self : F64.IPAsset) (ps : list B64.float) :
  Forall2 (factor_ok libm_pow (F64.discount_rate self))
    (seq 1 (List.length (F64.cash_flows self))) ps ->
  F64.IPAsset_net_present_value libm_pow self =
    Ok (F64.np_sum (quotients (F64.cash_flows self) ps))
  /\ F64.net_present_value libm_pow (F64.LicensedIP_obj self) =
     Ok (F64.np_sum (quotients (F64.cash_flows self) ps))
  /\ F64.net_present_value libm_pow (F64.SubscriptionIP_obj self) =
     Ok (F64.np_sum (quotients (F64.cash_flows self) ps))
  /\ (forall (zs1 zs2 : list B64.float) (cf p : B64.float),
        F64.cash_flows self = zs1 ++ cf :: zs2 ->
        Forall (fun x => B64.is_zero x = true) zs1 ->
        Forall (fun x => B64.is_zero x = true) zs2 ->
        Forall (fun q => B64.is_nan q = false) ps ->
        discount_factor libm_pow (F64.discount_rate self)
          (S (List.length zs1)) = Ok p ->
        same_number (F64.np_sum (quotients (F64.cash_flows self) ps))
                    (B64.div cf p)).
Proof.
  intros H.
  pose proof (Binary64Facts.IPAsset_npv_quotients libm_pow self ps H) as E.
  repeat split; try exact E.
  intros zs1 zs2 cf p Hc H1 H2 Hn Hp.
  rewrite Hc in *.
  apply Binary64Facts.single_cash_flow_sum; trivial.
  - exact (Binary64Facts.factor_ok_nonzero _ _ _ _ H).
  - apply (Binary64Facts.factor_ok_nth libm_pow (F64.discount_rate self)
             1 _ _ ps p H); [rewrite length_app; simpl; lia | exact Hp].
Qed.

Lemma npv_binary64_formula_witness :
  Forall2
    (factor_ok F64.pow_rn (B64.div (B64.of_int 1) (B64.of_int 10)))
    (seq 1 3)
    [S754_finite false 4953959590107546 (-52);
     S754_finite false 5449355549118301 (-52);
     S754_finite false 5994291104030132 (-52)]
  /\ F64.net_present_value F64.pow_rn
       (F64.LicensedIP "Licensed IP"
          [B64.of_int 1000; B64.of_int 1000; B64.of_int 1000]
          (B64.div (B64.of_int 1) (B64.of_int 10))) =
     Ok (F64.np_sum
           (quotients
              [B64.of_int 1000; B64.of_int 1000; B64.of_int 1000]
              [S754_finite false 4953959590107546 (-52);
               S754_finite false 5449355549118301 (-52);
               S754_finite false 5994291104030132 (-52)])).
Proof.
  assert (H : Forall2
                (factor_ok F64.pow_rn (B64.div (B64.of_int 1) (B64.of_int 10)))
                (seq 1 3)
                [S754_finite false 4953959590107546 (-52);
                 S754_finite false 5449355549118301 (-52);
                 S754_finite false 5994291104030132 (-52)]).
  { repeat (constructor; [split; vm_compute; reflexivity|]). constructor. }
  split; [exact H|].
  exact (proj1 (npv_binary64_formula F64.pow_rn
                  (F64.IPAsset_init "Licensed IP"
                     [B64.of_int 1000; B64.of_int 1000; B64.of_int 1000]
                     (B64.div (B64.of_int 1) (B64.of_int 10))) _ H)).
Defined.

(** C1, counterexample.  The rate [-1 + 2^-53] is above -1, but the power of
    year 21 underflows to [0.0] and the call on 21 cash flows of [1.0]
    raises [ZeroDivisionError]; at the rate [1e200] the power of year 2
    overflows and the call raises [OverflowError]. *)
Lemma npv_formula_counterexample :
  B64.ltb (B64.opp B64.one) (S754_finite true 9007199254740991 (-53)) = true
  /\ F64.net_present_value F64.pow_rn
       (F64.LicensedIP "Licensed IP" (repeat B64.one 21)
          (S754_finite true 9007199254740991 (-53))) =
     Raise ZeroDivisionError
  /\ B64.ltb (B64.opp B64.one) (S754_finite false 5883593420661338 612) = true
  /\ F64.net_present_value F64.pow_rn
       (F64.LicensedIP "Licensed IP" [B64.one; B64.one]
          (S754_finite false 5883593420661338 612)) =
     Raise OverflowError.
Proof. repeat split; vm_compute; reflexivity. Qed.

(** C2. For a positive number of years, [InternalIP.net_present_value]
    evaluates the one power [p = (1 + r)**years_until_sale]: it returns the
    binary64 quotient [sale_value / p] when [p] is not zero, raises
    [ZeroDivisionError] when [p] is zero, and raises what the power raises
    ([OverflowError] on overflow).  The constructor stores an empty
    cash-flow list, and the outcome is the same whatever list (and name)
    the instance holds. *)
Theorem InternalIP_npv_binary64
    (libm_pow : B64.float -> B64.float -> B64.float)
    (n : string) (s : B64.float) (y : Z) (r : B64.float) :
  (0 < y)%Z ->
  match F64.float_pow libm_pow (B64.add B64.one r) y with
  | Ok p =>
      F64.net_present_value libm_pow (F64.InternalIP n s y r) =
      (if B64.is_zero p then Raise ZeroDivisionError else Ok (B64.div s p))
  | Raise e =>
      F64.net_present_value libm_pow (F64.InternalIP n s y r) = Raise e
  end
  /\ F64.cash_flows (F64.base_of (F64.InternalIP n s y r)) = []
  /\ (forall (n' : string) (cfs : list B64.float),
        F64.net_present_value libm_pow
          (F64.InternalIP_obj (F64.IPAsset_init n' cfs r) s y) =
        F64.net_present_value libm_pow (F64.InternalIP n s y r)).
Proof.
  intros _. repeat split.
  cbn [F64.net_present_value F64.InternalIP].
  unfold F64.InternalIP_net_present_value.
  cbn [F64.discount_rate F64.IPAsset_init].
  destruct (F64.float_pow libm_pow (B64.add B64.one r) y) as [p|e];
    reflexivity.
Qed.

Lemma InternalIP_npv_binary64_witness :
  (0 < 3)%Z
  /\ F64.net_present_value F64.pow_rn
       (F64.InternalIP "Internal IP" (B64.of_int 50000) 3
          (B64.div (B64.of_int 8) (B64.of_int 100))) =
     Ok (B64.div (B64.of_int 50000)
           (S754_finite false 5673238493794143 (-52))).
Proof.
  split; [lia|].
  pose proof (proj1 (InternalIP_npv_binary64 F64.pow_rn "Internal IP"
                       (B64.of_int 50000) 3
                       (B64.div (B64.of_int 8) (B64.of_int 100))
                       ltac:(lia))) as H.
  vm_compute in H. vm_compute. exact H.
Defined.

(** C2, counterexample.  With 1100 years the power [2.0**1100] overflows at
    the rate 1.0 and the call raises [OverflowError]; at the rate -0.5 the
    power [0.5**1100] underflows to [0.0] and the call raises
    [ZeroDivisionError]. *)
Lemma InternalIP_formula_counterexample :
  (0 < 1100)%Z
  /\ B64.ltb (B64.opp B64.one) B64.one = true
  /\ F64.net_present_value F64.pow_rn
       (F64.InternalIP "Internal IP" B64.one 1100 B64.one) =
     Raise OverflowError
  /\ B64.ltb (B64.opp B64.one) (S754_finite true 4503599627370496 (-53)) = true
  /\ F64.net_present_value F64.pow_rn
       (F64.InternalIP "Internal IP" B64.one 1100
          (S754_finite true 4503599627370496 (-53))) =
     Raise ZeroDivisionError.
Proof. repeat split; vm_compute; reflexivity. Qed.

(** C4. At a discount rate of exactly 0 every discount factor is exactly
    1.0 and the net present value of a sequence of binary64 cash flows is
    [np.sum] of the sequence: its sum in binary64, in the order NumPy adds.
    (The sequence has fewer than 2^53 entries, so that every year converts
    to a float.) *)
Theorem npv_rate_zero_binary64
    (libm_pow : B64.float -> B64.float -> B64.float) (self : F64.IPAsset) :
  B64.is_zero (F64.discount_rate self) = true ->
  Forall (fun x => B64.valid x = true) (F64.cash_flows self) ->
  (Z.of_nat (List.length (F64.cash_flows self)) < 2 ^ 53)%Z ->
  F64.IPAsset_net_present_value libm_pow self =
    Ok (F64.np_sum (F64.cash_flows self))
  /\ F64.net_present_value libm_pow (F64.LicensedIP_obj self) =
     Ok (F64.np_sum (F64.cash_flows self))
  /\ F64.net_present_value libm_pow (F64.SubscriptionIP_obj self) =
     Ok (F64.np_sum (F64.cash_flows self)).
Proof.
  intros Hr Hv Hn.
  assert (E : F64.IPAsset_net_present_value libm_pow self =
              Ok (F64.np_sum (F64.cash_flows self))).
  { rewrite (Binary64Facts.IPAsset_npv_quotients libm_pow self
               (repeat B64.one (List.length (F64.cash_flows self)))).
    - now rewrite Binary64Facts.quotients_one.
    - apply Binary64Facts.factors_one.
      + now apply Binary64Facts.add_one_zero.
      + lia. }
  repeat split; exact E.
Qed.

Lemma npv_rate_zero_binary64_witness :
  B64.is_zero B64.zero = true
  /\ Forall (fun x => B64.valid x = true)
       [B64.of_int 10000; B64.of_int 250; B64.div B64.one (B64.of_int 3)]
  /\ (Z.of_nat 3 < 2 ^ 53)%Z
  /\ F64.net_present_value F64.pow_rn
       (F64.LicensedIP "Licensed IP"
          [B64.of_int 10000; B64.of_int 250; B64.div B64.one (B64.of_int 3)]
          B64.zero) =
     Ok (F64.np_sum
           [B64.of_int 10000; B64.of_int 250; B64.div B64.one (B64.of_int 3)]).
Proof.
  assert (Hv : Forall (fun x => B64.valid x = true)
                 [B64.of_int 10000; B64.of_int 250;
                  B64.div B64.one (B64.of_int 3)])
    by (repeat constructor).
  split; [reflexivity|]. split; [exact Hv|]. split; [reflexivity|].
  exact (proj1 (npv_rate_zero_binary64 F64.pow_rn
                  (F64.IPAsset_init "Licensed IP"
                     [B64.of_int 10000; B64.of_int 250;
                      B64.div B64.one (B64.of_int 3)] B64.zero)
                  eq_refl Hv eq_refl)).
Defined.

(** C4, counterexample.  At rate 0 the cash flows [2^53, 1] are valued at
    [2^53], which is not their arithmetic sum [2^53 + 1]. *)
Lemma rate_zero_sum_counterexample :
  F64.net_present_value F64.pow_rn
    (F64.LicensedIP "Licensed IP" [B64.of_int (2 ^ 53); B64.one] B64.zero) =
  Ok (B64.of_int (2 ^ 53))
  /\ ~ B64.to_Q (B64.of_int (2 ^ 53)) ==
       B64.to_Q (B64.of_int (2 ^ 53)) + B64.to_Q B64.one.
Proof.
  split; [vm_compute; reflexivity|].
  intros H. vm_compute in H. discriminate H.
Qed.







(** X19. [IPAsset.net_present_value] stops at the first year whose discount
    factor cannot be used: when the factors of the years before year [i]
    are non-zero numbers, the call raises what the power of year [i]
    raises ([OverflowError] on overflow), and raises [ZeroDivisionError]
    when that power is zero, whatever the cash flows are. *)
Theorem npv_raises_at_first_bad_factor
    (libm_pow : B64.float -> B64.float -> B64.float)
    (self : F64.IPAsset) (l1 l2 ps1 : list B64.float) (cf : B64.float) :
  F64.cash_flows self = l1 ++ cf :: l2 ->
  Forall2 (factor_ok libm_pow (F64.discount_rate self))
    (seq 1 (List.length l1)) ps1 ->
  match discount_factor libm_pow (F64.discount_rate self)
          (S (List.length l1)) with
  | Raise e => F64.IPAsset_net_present_value libm_pow self = Raise e
  | Ok p =>
      B64.is_zero p = true ->
      F64.IPAsset_net_present_value libm_pow self = Raise ZeroDivisionError
  end.
Proof.
  intros Hc H. unfold F64.IPAsset_net_present_value. rewrite Hc.
  rewrite Binary64Facts.enumerate_app, Binary64Facts.comprehension_app.
  pose proof (Binary64Facts.comprehension_quotients libm_pow
                (F64.discount_rate self) l1 1 ps1 H) as E.
  change (Z.of_nat 1) with 1%Z in E. rewrite E. cbn [bind].
  replace (1 + Z.of_nat (List.length l1))%Z
    with (Z.of_nat (S (List.length l1))) by lia.
  cbn [enumerate comprehension].
  assert (D : F64.discounted libm_pow (F64.discount_rate self)
                (Z.of_nat (S (List.length l1)), cf) =
              (p <- discount_factor libm_pow (F64.discount_rate self)
                      (S (List.length l1)) ;;
               F64.float_div cf p)) by reflexivity.
  rewrite D.
  destruct (discount_factor libm_pow (F64.discount_rate self)
              (S (List.length l1))) as [p|e]; cbn [bind].
  - intros Hz. unfold F64.float_div. rewrite Hz. reflexivity.
  - reflexivity.
Qed.

Lemma npv_raises_at_first_bad_factor_witness :
  Forall2 (factor_ok F64.pow_rn (S754_finite false 5883593420661338 612))
    (seq 1 1) [S754_finite false 5883593420661338 612]
  /\ F64.net_present_value F64.pow_rn
       (F64.LicensedIP "Licensed IP" [B64.one; B64.one]
          (S754_finite false 5883593420661338 612)) =
     Raise OverflowError.
Proof.
  assert (F : Forall2
                (factor_ok F64.pow_rn (S754_finite false 5883593420661338 612))
                (seq 1 1) [S754_finite false 5883593420661338 612])
    by (repeat (constructor; [split; vm_compute; reflexivity|]); constructor).
  split; [exact F|].
  pose proof (npv_raises_at_first_bad_factor F64.pow_rn
                (F64.IPAsset_init "Licensed IP" [B64.one; B64.one]
                   (S754_finite false 5883593420661338 612))
                [B64.one] [] [S754_finite false 5883593420661338 612]
                B64.one eq_refl F) as H.
  cbn [F64.discount_rate F64.IPAsset_init List.length] in H.
  replace (discount_factor F64.pow_rn
             (S754_finite false 5883593420661338 612) 2)
    with (@Raise B64.float OverflowError) in H by (vm_compute; reflexivity).
  exact H.
Defined.
